(** * ProactiveGPT: the conversation loop of [gpt_bot.py]

    A shallow embedding of the chat-relay bot's core: the text chunker
    [split_long_string], the completion client [send_message_to_chatgpt]
    with its bounded retry, the history retraction, the handshake and the
    periodic tick of [GptBot.send_periodic_message], and the scheduler's
    delay arithmetic.

    Modelling conventions.
    - A Python [str] is a list of characters; a character is one code point
      below 256 (an [ascii]).  [len] is [length].
    - The remote endpoint [openai.ChatCompletion.create] is an oracle indexed
      by the number of requests issued so far; [None] stands for a raised
      exception, [Some r] for a response whose first choice has content [r].
    - The float expression of the scheduler is read over exact rationals.
    - The asyncio tasks are run one after the other (no interleaving). *)

From Stdlib Require Import Ascii String ZArith QArith Lia Bool Arith List.
From Stdlib Require Import Qround Lqa.
Import ListNotations.
Close Scope Q_scope.

(** ** Python strings *)

Definition str := list ascii.

(** String literals of the source. *)
Definition lit (s : string) : str := list_ascii_of_string s.

Definition space : ascii := " "%char.

Module PyStr.

(** [c.isspace()] on code points below 256: TAB, LF, VT, FF, CR, the
    separators FS, GS, RS, US, the space, NEL and the no-break space. *)
Definition isspace (c : ascii) : bool :=
  let n := nat_of_ascii c in
  (((9 <=? n) && (n <=? 13)) || ((28 <=? n) && (n <=? 32))
   || (n =? 133) || (n =? 160))%nat.

(** [c.lower()] on code points below 256: A-Z, and the Latin-1 capitals
    other than the multiplication sign. *)
Definition lower_char (c : ascii) : ascii :=
  let n := nat_of_ascii c in
  if (((65 <=? n) && (n <=? 90))
      || ((192 <=? n) && (n <=? 222) && negb (n =? 215)))%nat
  then ascii_of_nat (n + 32) else c.

(** [s.lower()] *)
Definition lower (s : str) : str := map lower_char s.

(** [s.lstrip()], [s.rstrip()], [s.strip()] *)
Fixpoint lstrip (s : str) : str :=
  match s with
  | [] => []
  | c :: s' => if isspace c then lstrip s' else s
  end.

Definition rstrip (s : str) : str := rev (lstrip (rev s)).

Definition strip (s : str) : str := lstrip (rstrip s).

(** [s.split(' ')]: cut at every single space character; the result is
    never empty, and two adjacent spaces give an empty item. *)
Fixpoint split_space (s : str) : list str :=
  match s with
  | [] => [[]]
  | c :: s' =>
      if Ascii.eqb c space then [] :: split_space s'
      else match split_space s' with
           | [] => [[c]]
           | w :: ws => (c :: w) :: ws
           end
  end.

(** [sep.join(l)] *)
Fixpoint join (sep : str) (l : list str) : str :=
  match l with
  | [] => []
  | [x] => x
  | x :: l' => x ++ sep ++ join sep l'
  end.

(** [s.startswith(p)] *)
Fixpoint startswith (p s : str) : bool :=
  match p, s with
  | [], _ => true
  | _ :: _, [] => false
  | a :: p', b :: s' => Ascii.eqb a b && startswith p' s'
  end.

(** [needle in s] *)
Fixpoint contains (needle s : str) : bool :=
  startswith needle s ||
  match s with
  | [] => false
  | _ :: s' => contains needle s'
  end.

(** [s.split()]: the maximal runs of non-whitespace characters.  The pair
    computed by [ws_scan] is the run that starts at the head of the string
    (empty when the head is a whitespace) and the runs after it. *)
Definition push_word (h : str) (t : list str) : list str :=
  match h with
  | [] => t
  | _ :: _ => h :: t
  end.

Fixpoint ws_scan (s : str) : str * list str :=
  match s with
  | [] => ([], [])
  | c :: s' =>
      let (h, t) := ws_scan s' in
      if isspace c then ([], push_word h t) else (c :: h, t)
  end.

Definition split_ws (s : str) : list str :=
  let (h, t) := ws_scan s in push_word h t.

End PyStr.

(** ** TextChunker: [split_long_string] *)

Module Chunker.
Import PyStr.

(** Discord max message length. *)
Definition MAX_MESSAGE_LENGTH : Z := 2000%Z.

Definition len (s : str) : Z := Z.of_nat (length s).

(** One iteration of [for word in words]; the state is
    [(result, current_line)]. *)
Definition step (max_length : Z) (st : list str * str) (word : str)
  : list str * str :=
  let (result, current_line) := st in
  if (len (current_line ++ space :: word) <=? max_length)%Z
  then (result, current_line ++ space :: word)
  else (result ++ [strip current_line], word).

Definition split_long_string (text : str) (max_length : Z) : list str :=
  let words := split_space text in
  let (result, current_line) :=
    fold_left (step max_length) words ([], []) in
  match current_line with
  | [] => result
  | _ :: _ => result ++ [strip current_line]
  end.

(** The whitespace normalisation the specification speaks of:
    [" ".join(text.split())]. *)
Definition normalize_ws (s : str) : str := join [space] (split_ws s).

(** Loop invariants used below. *)

(** The words held by a loop state: those of the flushed segments, then
    those of the line under construction. *)
Definition state_words (st : list str * str) : list str :=
  concat (map split_ws (fst st)) ++ split_ws (snd st).

(** Every segment and the line under construction fit. *)
Definition state_fits (max_length : Z) (st : list str * str) : Prop :=
  Forall (fun seg => (len seg <= max_length)%Z) (fst st)
  /\ (len (snd st) <= max_length)%Z.

(** After one iteration the state is never [([], "")]. *)
Definition state_started (st : list str * str) : Prop :=
  fst st <> [] \/ snd st <> [].

End Chunker.

(** ** CompletionClient: [send_message_to_chatgpt] *)

Module Completion.

Inductive Role : Set := user | system.

(** A history entry, the dict [{"content": ..., "role": ...}]. *)
Record Message : Set := { content : str; role : Role }.

(** What a call gives back: a value, or a raised exception (here always
    the [RetryError] of the retry decorator). *)
Inductive Outcome (A : Type) : Type :=
| Returned (a : A)
| Raised.
Arguments Returned {A} a.
Arguments Raised {A}.

(** [openai.ChatCompletion.create]: request number, model and messages
    give the content of the first choice, or [None] for an exception. *)
Definition Endpoint : Type := nat -> str -> list Message -> option str.

Section Client.
Variable create : Endpoint.

(** [@retry(..., stop=stop_after_attempt(k))]: call until a response
    comes, at most [k] times; [n] counts the requests issued. *)
Fixpoint retry (attempts : nat) (n : nat) (model : str)
         (messages : list Message) : Outcome str * nat :=
  match attempts with
  | O => (Raised, n)
  | S k =>
      match create n model messages with
      | Some response => (Returned response, S n)
      | None => retry k (S n) model messages
      end
  end.

Definition call_openai_chat_api := retry 3.

(** The list [messages] is mutated in place: the result carries its
    value after the call, the outcome and the request counter. *)
Definition send_message_to_chatgpt (n : nat) (messages : list Message)
           (message model : str)
  : list Message * Outcome str * nat :=
  let messages1 := messages ++ [{| content := message; role := user |}] in
  match call_openai_chat_api n model messages1 with
  | (Returned gpt_response, n') =>
      (messages1 ++ [{| content := gpt_response; role := system |}],
       Returned gpt_response, n')
  | (Raised, n') => (messages1, Raised, n')
  end.

End Client.

End Completion.

(** ** SessionController: [GptBot] *)

Module Session.
Import PyStr Chunker Completion.

Record Config : Set := {
  model : str;
  task_prompt : str;
  loop_prompt : str;
  cadence : Z;
}.

(** The bot and what it has done so far: the history [self.messages], the
    flag [self.initialized], the requests issued to the endpoint, the
    texts sent to the recipient ([user.send]) and the texts sent to the
    channel of a command ([ctx.send]), oldest first. *)
Record Bot : Set := {
  messages : list Message;
  initialized : bool;
  requests : nat;
  outbox : list str;
  replies : list str;
}.

Definition new_bot : Bot :=
  {| messages := []; initialized := false; requests := 0%nat;
     outbox := []; replies := [] |}.

(** [l[:k]] *)
Definition slice_to {A : Type} (k : Z) (l : list A) : list A :=
  let n := Z.of_nat (length l) in
  firstn (Z.to_nat (if (k <? 0)%Z then Z.max (n + k) 0 else Z.min k n)) l.

(** Code that runs on the bot and may raise. *)
Definition Task (A : Type) : Type := Bot -> Outcome A * Bot.

Definition ret {A : Type} (a : A) : Task A := fun b => (Returned a, b).

Definition bind {A B : Type} (t : Task A) (k : A -> Task B) : Task B :=
  fun b =>
    match t b with
    | (Returned a, b') => k a b'
    | (Raised, b') => (Raised, b')
    end.

Notation "x <- t ;; k" := (bind t (fun x => k))
  (at level 61, t at next level, right associativity).
Notation "t ;; k" := (bind t (fun _ => k))
  (at level 61, right associativity).

Fixpoint for_each {A : Type} (l : list A) (body : A -> Task unit)
  : Task unit :=
  match l with
  | [] => ret tt
  | x :: l' => body x ;; for_each l' body
  end.

(** [await user.send(text)] *)
Definition user_send (text : str) : Task unit :=
  fun b =>
    (Returned tt,
     {| messages := messages b; initialized := initialized b;
        requests := requests b; outbox := outbox b ++ [text];
        replies := replies b |}).

(** [await ctx.send(text)] *)
Definition ctx_send (text : str) : Task unit :=
  fun b =>
    (Returned tt,
     {| messages := messages b; initialized := initialized b;
        requests := requests b; outbox := outbox b;
        replies := replies b ++ [text] |}).

(** [self.messages = self.messages[:-n]] *)
Definition _retract_last_n_message (n : Z) : Task unit :=
  fun b =>
    (Returned tt,
     {| messages := slice_to (- n) (messages b);
        initialized := initialized b; requests := requests b;
        outbox := outbox b; replies := replies b |}).

Definition SCHEDULER_PREFIX : str := lit "SCHEDULER: ".
Definition NOTHING_TO_DO : str := lit "nothing to do now".
Definition INSTRUCTION_OPEN : str :=
  lit "Your initial instruction to ChatGPT: ```".
Definition INSTRUCTION_CLOSE : str := lit "```".
Definition GENERATING : str :=
  lit "ChatGPT is now generating the plan for you...".

Section Controller.
Variable create : Endpoint.
Variable cfg : Config.
(** Whether [fetch_user] gives a handle. *)
Variable user_found : bool.

(** [await loop.run_in_executor(None, send_message_to_chatgpt,
    self.messages, message, self.model)] *)
Definition chat (message : str) : Task str :=
  fun b =>
    let '(messages', outcome, n') :=
      send_message_to_chatgpt create (requests b) (messages b)
                              message (model cfg) in
    (outcome,
     {| messages := messages'; initialized := initialized b;
        requests := n'; outbox := outbox b; replies := replies b |}).

(** [send_periodic_message] up to the loop. *)
Definition handshake : Task unit :=
  user_send (INSTRUCTION_OPEN ++ task_prompt cfg ++ INSTRUCTION_CLOSE) ;;
  user_send GENERATING ;;
  gpt_response <- chat (task_prompt cfg) ;;
  (if (len gpt_response >? MAX_MESSAGE_LENGTH)%Z
   then for_each (split_long_string gpt_response MAX_MESSAGE_LENGTH)
                 user_send
   else user_send gpt_response) ;;
  _ <- chat (loop_prompt cfg) ;;
  ret tt.

(** One iteration of [while True], after the sleep; [time] is the
    formatted clock reading. *)
Definition tick (time : str) : Task unit :=
  gpt_response <- chat (SCHEDULER_PREFIX ++ time) ;;
  if contains NOTHING_TO_DO (lower gpt_response)
  then _retract_last_n_message 2
  else user_send gpt_response.

(** [send_periodic_message], the loop cut after the given clock
    readings. *)
Definition send_periodic_message (times : list str) : Task unit :=
  if user_found
  then handshake ;; for_each times tick
  else ret tt.

(** [on_ready]: the task is started on the first signal only; what it
    raises stays in the task. *)
Definition on_ready (times : list str) (b : Bot) : Bot :=
  if initialized b then b
  else
    let b' := snd (send_periodic_message times b) in
    {| messages := messages b'; initialized := true;
       requests := requests b'; outbox := outbox b';
       replies := replies b' |}.

(** The command [g]. *)
Definition g (message : str) : Task unit :=
  gpt_response <- chat message ;;
  ctx_send gpt_response.

End Controller.

End Session.

(** ** Scheduler: the delay computed in [send_periodic_message] *)

Module Scheduler.

(** [datetime.datetime.now()], the fields the code reads. *)
Record datetime : Set := {
  hour : Z;
  minute : Z;
  second : Z;
  microsecond : Z;
}.


Definition seconds_till_next_hour (now : datetime) : Q :=
  (inject_Z (3600 - minute now * 60 - second now)
   - inject_Z (microsecond now) / inject_Z 1000000)%Q.

Definition more_hours (now : datetime) (cadence : Z) : Z :=
  ((hour now + 1) mod cadence)%Z.

Definition seconds_till_next_run (now : datetime) (cadence : Z) : Q :=
  (seconds_till_next_hour now
   + inject_Z (more_hours now cadence * 3600))%Q.

(** Seconds since midnight at [now]. *)
Definition time_of_day (now : datetime) : Q :=
  (inject_Z (hour now * 3600 + minute now * 60 + second now)
   + inject_Z (microsecond now) / inject_Z 1000000)%Q.

(** When the sleep ends, in seconds since the midnight before [now]. *)
Definition tick_time (now : datetime) (cadence : Z) : Q :=
  (time_of_day now + seconds_till_next_run now cadence)%Q.

Definition on_hour_boundary (t : Q) : Prop :=
  exists k : Z, (t == inject_Z (k * 3600))%Q.

(** The hour shown by a wall clock at [t] seconds since midnight. *)
Definition hour_of_day (t : Q) : Z :=
  (Qfloor (t / inject_Z 3600)%Q mod 24)%Z.

End Scheduler.

(** ** Vocabulary of the statements and sample data *)

Module Samples.
Import PyStr Chunker Completion Session Scheduler.

(** [phrase] occurs in [s] in some letter case: a piece of [s] reads
    [phrase] once lowered. *)
Definition occurs_any_case (phrase s : str) : Prop :=
  exists pre mid post, s = pre ++ mid ++ post /\ lower mid = phrase.

Definition user_turn (text : str) : Message :=
  {| content := text; role := user |}.

Definition system_turn (text : str) : Message :=
  {| content := text; role := system |}.

(** The configuration of the end-to-end example. *)
Definition plan_cfg : Config :=
  {| model := lit "gpt-3.5-turbo"; task_prompt := lit "Plan my day";
     loop_prompt := lit "Remind me hourly"; cadence := 3%Z |}.

(** An endpoint that always answers [reply], one that never answers, and
    one that answers [reply] from request number [k] on. *)
Definition always (reply : str) : Endpoint := fun _ _ _ => Some reply.
Definition never : Endpoint := fun _ _ _ => None.
Definition from_request (k : nat) (reply : str) : Endpoint :=
  fun n _ _ => if (k <=? n)%nat then Some reply else None.

(** A reply of 3000 characters made of three-letter words. *)
Definition long_reply : str :=
  join [space] (repeat (lit "abc") 750) ++ [space].

(** The parts of what [send_message_to_chatgpt] gives back. *)
Definition history_after (r : list Message * Outcome str * nat)
  : list Message := fst (fst r).
Definition outcome_of (r : list Message * Outcome str * nat)
  : Outcome str := snd (fst r).
Definition requests_after (r : list Message * Outcome str * nat) : nat :=
  snd r.

Definition three_o_clock : str := lit "11/03/2026 03:00:00".

Definition midnight : datetime :=
  {| hour := 0; minute := 0; second := 0; microsecond := 0 |}.


End Samples.

(** ** Shapes of strings, histories and tasks *)

Module Shapes.
Import PyStr Chunker Completion Session.

(** [s] neither starts nor ends with a whitespace character. *)
Definition trimmed (s : str) : Prop :=
  forall c, hd_error s = Some c \/ hd_error (rev s) = Some c ->
            isspace c = false.

(** [s] is not empty, and starts and ends with a character that is not a
    whitespace. *)
Definition tight (s : str) : Prop :=
  exists a b, hd_error s = Some a /\ isspace a = false
              /\ hd_error (rev s) = Some b /\ isspace b = false.

(** A word: not empty and free of whitespace characters. *)
Definition plain_word (w : str) : Prop :=
  w <> [] /\ forallb (fun c => negb (isspace c)) w = true.

(** [text] holds no space character. *)
Definition no_space (text : str) : Prop :=
  forallb (fun c => negb (Ascii.eqb c space)) text = true.

(** The text a state of the chunker's loop stands for, after a leading
    space: the flushed segments and the line, joined by single spaces. *)
Definition flat (st : list str * str) : str :=
  match fst st with
  | [] => snd st
  | _ :: _ => space :: join [space] (fst st ++ [snd st])
  end.

(** The states the loop reaches on plain words once the first word has
    been taken. *)
Definition neat (st : list str * str) : Prop :=
  match fst st with
  | [] => exists s, tight s /\ snd st = space :: s
  | _ :: _ => tight (snd st)
  end.

(** A history in which every request is a user entry, followed or not by
    the system entry that answers it. *)
Inductive well_paired : list Message -> Prop :=
| paired_nil : well_paired []
| paired_asked (h : list Message) (text : str) :
    well_paired h -> well_paired (h ++ [{| content := text; role := user |}])
| paired_answered (h : list Message) (text reply : str) :
    well_paired h ->
    well_paired (h ++ [{| content := text; role := user |};
                       {| content := reply; role := system |}]).

(** A task that keeps the history well paired. *)
Definition keeps_paired {A : Type} (t : Task A) : Prop :=
  forall b, well_paired (messages b) -> well_paired (messages (snd (t b))).

(** The bot [b] with another history and request counter. *)
Definition with_history (b : Bot) (history : list Message) (n : nat) : Bot :=
  {| messages := history; initialized := initialized b; requests := n;
     outbox := outbox b; replies := replies b |}.

(** The bot [b] after more texts went to the recipient. *)
Definition with_sent (b : Bot) (texts : list str) : Bot :=
  {| messages := messages b; initialized := initialized b;
     requests := requests b; outbox := outbox b ++ texts;
     replies := replies b |}.

(** What the handshake sends for a first reply. *)
Definition reply_messages (reply : str) : list str :=
  if (len reply >? MAX_MESSAGE_LENGTH)%Z
  then split_long_string reply MAX_MESSAGE_LENGTH
  else [reply].

End Shapes.

(** ** Facts about the string primitives *)

Module PyStrFacts.
Import PyStr.

Lemma space_isspace : isspace space = true.
Proof. reflexivity. Qed.

Lemma split_space_not_nil (s : str) : split_space s <> [].
Proof.
  induction s as [|c s IH]; simpl; [discriminate|].
  destruct (Ascii.eqb c space); [discriminate|].
  destruct (split_space s); discriminate.
Qed.

(** Splitting at spaces loses nothing: the items joined by a space are
    the text. *)
Lemma join_split_space (s : str) : join [space] (split_space s) = s.
Proof.
  induction s as [|c s IH]; simpl; [reflexivity|].
  destruct (Ascii.eqb_spec c space) as [->|Hc].
  - destruct (split_space s) as [|w ws] eqn:E.
    + now apply split_space_not_nil in E.
    + simpl in *. now rewrite IH.
  - destruct (split_space s) as [|w ws] eqn:E.
    + now apply split_space_not_nil in E.
    + destruct ws; simpl in *; now rewrite <- IH.
Qed.

Lemma push_word_app (h : str) (t u : list str) :
  push_word h (t ++ u) = push_word h t ++ u.
Proof. now destruct h. Qed.

Lemma split_ws_cons_space (c : ascii) (s : str) :
  isspace c = true -> split_ws (c :: s) = split_ws s.
Proof.
  unfold split_ws; simpl; intros ->.
  now destruct (ws_scan s).
Qed.

Lemma ws_scan_app_space (c : ascii) (a b : str) :
  isspace c = true ->
  ws_scan (a ++ c :: b)
  = (fst (ws_scan a), snd (ws_scan a) ++ split_ws b).
Proof.
  intros Hc; induction a as [|x a IH].
  - cbn [app ws_scan fst snd]. rewrite Hc. unfold split_ws.
    now destruct (ws_scan b).
  - cbn [app ws_scan]. rewrite IH.
    destruct (ws_scan a) as [h t]; cbn [fst snd].
    destruct (isspace x); cbn [fst snd]; [|reflexivity].
    now rewrite push_word_app.
Qed.

(** A whitespace character separates words. *)
Lemma split_ws_app_space (c : ascii) (a b : str) :
  isspace c = true ->
  split_ws (a ++ c :: b) = split_ws a ++ split_ws b.
Proof.
  intros Hc. unfold split_ws at 1 2. rewrite (ws_scan_app_space c a b Hc).
  destruct (ws_scan a) as [h t]; cbn [fst snd].
  apply push_word_app.
Qed.

Lemma split_ws_blank (ws : str) :
  forallb isspace ws = true -> split_ws ws = [].
Proof.
  induction ws as [|c ws IH]; [reflexivity|].
  cbn [forallb]; intros [Hc Hws]%andb_prop.
  rewrite (split_ws_cons_space c _ Hc). auto.
Qed.

Lemma split_ws_blank_l (ws s : str) :
  forallb isspace ws = true -> split_ws (ws ++ s) = split_ws s.
Proof.
  induction ws as [|c ws IH]; [reflexivity|].
  cbn [forallb app]; intros [Hc Hws]%andb_prop.
  rewrite (split_ws_cons_space c _ Hc). auto.
Qed.

Lemma split_ws_blank_r (s ws : str) :
  forallb isspace ws = true -> split_ws (s ++ ws) = split_ws s.
Proof.
  destruct ws as [|c ws]; [now rewrite app_nil_r|].
  cbn [forallb]; intros [Hc Hws]%andb_prop.
  rewrite (split_ws_app_space c s ws Hc), (split_ws_blank _ Hws).
  apply app_nil_r.
Qed.

(** What [lstrip] removes is a blank prefix. *)
Lemma lstrip_spec (s : str) :
  exists ws, s = ws ++ lstrip s /\ forallb isspace ws = true.
Proof.
  induction s as [|c s (ws & E & Hws)]; [now exists []|].
  cbn [lstrip]. destruct (isspace c) eqn:Hc.
  - exists (c :: ws). cbn [forallb app]. rewrite Hc, Hws.
    split; [now f_equal|reflexivity].
  - now exists [].
Qed.

Lemma rstrip_spec (s : str) :
  exists ws, s = rstrip s ++ ws /\ forallb isspace ws = true.
Proof.
  destruct (lstrip_spec (rev s)) as (ws & E & Hws).
  exists (rev ws); split.
  - unfold rstrip. rewrite <- rev_app_distr, <- E. symmetry; apply rev_involutive.
  - rewrite forallb_forall in *. intros x Hx. apply Hws. now apply in_rev.
Qed.

(** [strip] keeps the words. *)
Lemma split_ws_strip (s : str) : split_ws (strip s) = split_ws s.
Proof.
  unfold strip.
  destruct (rstrip_spec s) as (ws & E & Hws).
  destruct (lstrip_spec (rstrip s)) as (ws' & E' & Hws').
  rewrite E at 2. rewrite (split_ws_blank_r _ _ Hws).
  rewrite E' at 2. now rewrite (split_ws_blank_l _ _ Hws').
Qed.

Lemma lstrip_length (s : str) : (length (lstrip s) <= length s)%nat.
Proof.
  induction s as [|c s IH]; simpl; [lia|].
  destruct (isspace c); simpl; lia.
Qed.

Lemma strip_length (s : str) : (length (strip s) <= length s)%nat.
Proof.
  unfold strip, rstrip.
  etransitivity; [apply lstrip_length|].
  rewrite length_rev. etransitivity; [apply lstrip_length|].
  now rewrite length_rev.
Qed.

Lemma split_ws_join (l : list str) :
  split_ws (join [space] l) = concat (map split_ws l).
Proof.
  induction l as [|x l IH]; [reflexivity|].
  destruct l as [|y l].
  - simpl. now rewrite app_nil_r.
  - change (join [space] (x :: y :: l))
      with (x ++ space :: join [space] (y :: l)).
    rewrite (split_ws_app_space space x _ space_isspace), IH. reflexivity.
Qed.

End PyStrFacts.

(** ** Properties of [split_long_string] *)

Module ChunkerFacts.
Import PyStr PyStrFacts Chunker.

Lemma step_words (max_length : Z) (st : list str * str) (word : str) :
  state_words (step max_length st word) = state_words st ++ split_ws word.
Proof.
  destruct st as [result cur]; unfold step, state_words.
  destruct (len (cur ++ space :: word) <=? max_length)%Z; cbn [fst snd].
  - now rewrite (split_ws_app_space space cur word space_isspace), app_assoc.
  - rewrite map_app, concat_app. cbn [map concat].
    now rewrite app_nil_r, split_ws_strip.
Qed.

Lemma loop_words (max_length : Z) (words : list str) (st : list str * str) :
  state_words (fold_left (step max_length) words st)
  = state_words st ++ concat (map split_ws words).
Proof.
  revert st; induction words as [|w words IH]; intros st; cbn [fold_left].
  - cbn. now rewrite app_nil_r.
  - rewrite IH, step_words. cbn [map concat]. now rewrite app_assoc.
Qed.

(** The segments carry the words of the text, in order. *)
Lemma split_long_string_words (text : str) (max_length : Z) :
  concat (map split_ws (split_long_string text max_length)) = split_ws text.
Proof.
  unfold split_long_string.
  pose proof (loop_words max_length (split_space text) ([], [])) as H.
  destruct (fold_left (step max_length) (split_space text) ([], []))
    as [result cur].
  unfold state_words in H; cbn [fst snd map concat app] in H.
  rewrite <- (split_ws_join (split_space text)), join_split_space in H.
  change (split_ws [] ++ split_ws text) with (split_ws text) in H.
  rewrite <- H. destruct cur as [|c cur].
  - cbn. now rewrite app_nil_r.
  - rewrite map_app, concat_app. cbn [map concat].
    now rewrite app_nil_r, split_ws_strip.
Qed.

Lemma strip_fits (max_length : Z) (s : str) :
  (len s <= max_length)%Z -> (len (strip s) <= max_length)%Z.
Proof.
  unfold len; intros H. pose proof (strip_length s). lia.
Qed.

Lemma step_fits (max_length : Z) (st : list str * str) (word : str) :
  state_fits max_length st -> (len word <= max_length)%Z ->
  state_fits max_length (step max_length st word).
Proof.
  destruct st as [result cur]; unfold step, state_fits; cbn [fst snd].
  intros [Hres Hcur] Hw.
  destruct (len (cur ++ space :: word) <=? max_length)%Z eqn:E;
    cbn [fst snd].
  - split; [assumption|now apply Z.leb_le].
  - split; [|assumption].
    apply Forall_app; split; [assumption|].
    constructor; [now apply strip_fits|constructor].
Qed.

Lemma loop_fits (max_length : Z) (words : list str) (st : list str * str) :
  state_fits max_length st ->
  Forall (fun w => (len w <= max_length)%Z) words ->
  state_fits max_length (fold_left (step max_length) words st).
Proof.
  revert st; induction words as [|w words IH]; intros st Hst Hw;
    cbn [fold_left]; [assumption|].
  inversion Hw; subst. apply IH; [now apply step_fits|assumption].
Qed.

Lemma split_long_string_fits (text : str) (max_length : Z) :
  Forall (fun w => (len w <= max_length)%Z) (split_space text) ->
  Forall (fun seg => (len seg <= max_length)%Z)
         (split_long_string text max_length).
Proof.
  intros Hw. unfold split_long_string.
  assert (H0 : state_fits max_length ([], [])).
  { split; [constructor|]. cbn [snd].
    destruct (split_space text) as [|w ws] eqn:E.
    - now apply split_space_not_nil in E.
    - inversion Hw; subst. unfold len in *. simpl. lia. }
  pose proof (loop_fits max_length (split_space text) ([], []) H0 Hw) as H.
  destruct (fold_left (step max_length) (split_space text) ([], []))
    as [result cur].
  destruct H as [Hres Hcur]; cbn [fst snd] in *.
  destruct cur as [|c cur]; [assumption|].
  apply Forall_app; split; [assumption|].
  constructor; [now apply strip_fits|constructor].
Qed.

Lemma step_started (max_length : Z) (st : list str * str) (word : str) :
  state_started (step max_length st word).
Proof.
  destruct st as [result cur]; unfold step, state_started.
  destruct (len (cur ++ space :: word) <=? max_length)%Z; cbn [fst snd].
  - right. now destruct cur.
  - left. now destruct result.
Qed.

Lemma loop_started (max_length : Z) (words : list str) (st : list str * str) :
  words <> [] -> state_started (fold_left (step max_length) words st).
Proof.
  intros Hw. destruct (exists_last Hw) as (ws & w & ->).
  rewrite fold_left_app. cbn [fold_left]. apply step_started.
Qed.

Lemma split_long_string_not_nil (text : str) (max_length : Z) :
  split_long_string text max_length <> [].
Proof.
  unfold split_long_string.
  pose proof (loop_started max_length (split_space text) ([], [])
                (split_space_not_nil text)) as H.
  destruct (fold_left (step max_length) (split_space text) ([], []))
    as [result cur].
  destruct cur as [|c cur].
  - destruct H as [H|H]; [exact H|now elim H].
  - now destruct result.
Qed.

Lemma split_long_string_empty (max_length : Z) :
  split_long_string [] max_length = [[]].
Proof.
  unfold split_long_string. cbn [split_space fold_left step].
  destruct (len ([] ++ [space]) <=? max_length)%Z; reflexivity.
Qed.

End ChunkerFacts.


(** ** Properties of the completion client *)

Module CompletionFacts.
Import Completion.

Section Client.
Variable create : Endpoint.

Lemma retry_requests (k n : nat) (model : str) (msgs : list Message) :
  (n <= snd (retry create k n model msgs) <= n + k)%nat.
Proof.
  revert n; induction k as [|k IH]; intros n; cbn [retry snd]; [lia|].
  destruct (create n model msgs); cbn [snd]; [lia|].
  specialize (IH (S n)). lia.
Qed.

Lemma retry_all_fail (k n : nat) (model : str) (msgs : list Message) :
  (forall j, (j < k)%nat -> create (n + j) model msgs = None) ->
  retry create k n model msgs = (Raised, (n + k)%nat).
Proof.
  revert n; induction k as [|k IH]; intros n H; cbn [retry].
  - now rewrite Nat.add_0_r.
  - rewrite <- (Nat.add_0_r n) at 1. rewrite (H 0%nat) by lia.
    rewrite IH; [f_equal; lia|].
    intros j Hj. replace (S n + j)%nat with (n + S j)%nat by lia.
    apply H; lia.
Qed.

Lemma retry_first_success (k n j : nat) (model : str)
      (msgs : list Message) (r : str) :
  (j < k)%nat ->
  create (n + j) model msgs = Some r ->
  (forall i, (i < j)%nat -> create (n + i) model msgs = None) ->
  retry create k n model msgs = (Returned r, S (n + j)).
Proof.
  revert n j; induction k as [|k IH]; intros n j Hj Hr Hfail; [lia|].
  cbn [retry]. destruct j as [|j].
  - rewrite Nat.add_0_r in *. now rewrite Hr.
  - rewrite <- (Nat.add_0_r n) at 1. rewrite (Hfail 0%nat) by lia.
    replace (S (n + S j)) with (S (S n + j)) by lia.
    apply IH; [lia| |].
    + now replace (S n + j)%nat with (n + S j)%nat by lia.
    + intros i Hi. replace (S n + i)%nat with (n + S i)%nat by lia.
      apply Hfail; lia.
Qed.

Lemma retry_raised (k n n' : nat) (model : str) (msgs : list Message) :
  retry create k n model msgs = (Raised, n') ->
  forall j, (j < k)%nat -> create (n + j) model msgs = None.
Proof.
  revert n; induction k as [|k IH]; intros n H j Hj; [lia|].
  cbn [retry] in H. destruct (create n model msgs) eqn:E;
    [discriminate|].
  destruct j as [|j]; [now rewrite Nat.add_0_r|].
  replace (n + S j)%nat with (S n + j)%nat by lia.
  apply (IH (S n) H); lia.
Qed.

(** A call that returns has appended the user turn and the reply. *)
Lemma send_returned (n n' : nat) (messages messages' : list Message)
      (message model reply : str) :
  send_message_to_chatgpt create n messages message model
  = (messages', Returned reply, n') ->
  messages' = messages ++ [{| content := message; role := user |};
                           {| content := reply; role := system |}].
Proof.
  unfold send_message_to_chatgpt.
  destruct (call_openai_chat_api create n model _) as [[r|] m];
    intros H; inversion H; subst.
  now rewrite <- app_assoc.
Qed.

End Client.

End CompletionFacts.

(** ** Properties of the session controller *)

Module SessionFacts.
Import PyStr Chunker Completion Session Samples CompletionFacts.

Lemma startswith_spec (p s : str) :
  startswith p s = true <-> exists post, s = p ++ post.
Proof.
  revert s; induction p as [|a p IH]; intros s; cbn [startswith].
  - split; [now exists s|reflexivity].
  - destruct s as [|b s].
    + split; [discriminate|]. now intros [post H].
    + rewrite andb_true_iff, IH. split.
      * intros [->%Ascii.eqb_eq [post ->]]. now exists post.
      * intros [post H]. inversion H; subst.
        split; [apply Ascii.eqb_refl|now exists post].
Qed.

(** [needle in s] holds exactly when [needle] is a piece of [s]. *)
Lemma contains_spec (needle s : str) :
  contains needle s = true <-> exists pre post, s = pre ++ needle ++ post.
Proof.
  induction s as [|c s IH]; cbn [contains].
  - rewrite orb_false_r, startswith_spec. split.
    + intros [post H]. now exists [], post.
    + intros (pre & post & H). destruct pre; [now exists post|discriminate].
  - rewrite orb_true_iff, startswith_spec, IH. split.
    + intros [[post H]|(pre & post & H)].
      * now exists [], post.
      * exists (c :: pre), post. now rewrite H.
    + intros (pre & post & H). destruct pre as [|x pre].
      * left. now exists post.
      * right. inversion H. now exists pre, post.
Qed.

(** The test of the loop reads the phrase in any letter case. *)
Lemma contains_lower (phrase s : str) :
  contains phrase (lower s) = true <-> occurs_any_case phrase s.
Proof.
  rewrite contains_spec. unfold occurs_any_case, lower. split.
  - intros (a & b & H).
    apply map_eq_app in H as (pre & rest & -> & <- & H).
    apply map_eq_app in H as (mid & post & -> & <- & <-).
    now exists pre, mid, post.
  - intros (pre & mid & post & -> & <-).
    exists (map lower_char pre), (map lower_char post).
    now rewrite !map_app.
Qed.

(** [l[:-2]] drops the last two items. *)
Lemma slice_to_drop_two {A : Type} (l : list A) (x y : A) :
  slice_to (- 2) (l ++ [x; y]) = l.
Proof.
  unfold slice_to. rewrite length_app. cbn [length Z.ltb Z.opp Z.compare].
  replace (Z.to_nat _) with (length l) by lia.
  rewrite firstn_app, Nat.sub_diag, firstn_all. cbn. apply app_nil_r.
Qed.

Lemma for_each_user_send (l : list str) (b : Bot) :
  for_each l user_send b
  = (Returned tt,
     {| messages := messages b; initialized := initialized b;
        requests := requests b; outbox := outbox b ++ l;
        replies := replies b |}).
Proof.
  revert b; induction l as [|x l IH]; intros b; cbn [for_each].
  - unfold ret. rewrite app_nil_r. now destruct b.
  - unfold bind at 1. cbn [user_send]. rewrite IH. cbn.
    now rewrite <- app_assoc.
Qed.

Section Controller.
Variable create : Endpoint.
Variable cfg : Config.

Lemma chat_outbox (message : str) (b : Bot) :
  outbox (snd (chat create cfg message b)) = outbox b.
Proof.
  unfold chat.
  now destruct (send_message_to_chatgpt create _ _ _ _) as [[m o] n].
Qed.

Lemma chat_eq (message : str) (b : Bot) (messages' : list Message)
      (o : Outcome str) (n' : nat) :
  send_message_to_chatgpt create (requests b) (messages b) message
                          (model cfg) = (messages', o, n') ->
  chat create cfg message b
  = (o, {| messages := messages'; initialized := initialized b;
           requests := n'; outbox := outbox b; replies := replies b |}).
Proof. unfold chat. now intros ->. Qed.

End Controller.

End SessionFacts.

(** ** Properties of the scheduler *)

Module SchedulerFacts.
Import Scheduler.


(** The sleep ends [hour + 1 + more_hours] whole hours after midnight. *)
Lemma tick_time_hours (now : datetime) (cadence : Z) :
  (tick_time now cadence
   == inject_Z ((hour now + 1 + more_hours now cadence) * 3600))%Q.
Proof.
  unfold tick_time, time_of_day, seconds_till_next_run,
    seconds_till_next_hour.
  generalize (more_hours now cadence); intros m.
  unfold Z.sub.
  repeat first [rewrite inject_Z_plus | rewrite inject_Z_mult
               | rewrite inject_Z_opp].
  change (inject_Z 3600) with 3600%Q. change (inject_Z 60) with 60%Q.
  change (inject_Z 1000000) with 1000000%Q. change (inject_Z 1) with 1%Q.
  field.
Qed.

Lemma tick_on_hour_boundary (now : datetime) (cadence : Z) :
  on_hour_boundary (tick_time now cadence).
Proof.
  exists (hour now + 1 + more_hours now cadence)%Z. apply tick_time_hours.
Qed.

Lemma hour_of_day_hours (k : Z) :
  hour_of_day (inject_Z (k * 3600)) = (k mod 24)%Z.
Proof.
  unfold hour_of_day. f_equal.
  rewrite <- (Qfloor_Z k) at 2. apply Qfloor_comp.
  rewrite inject_Z_mult. change (inject_Z 3600) with 3600%Q. field.
Qed.

Lemma tick_hour (now : datetime) (cadence : Z) :
  hour_of_day (tick_time now cadence)
  = ((hour now + 1 + more_hours now cadence) mod 24)%Z.
Proof.
  rewrite <- hour_of_day_hours. unfold hour_of_day. f_equal.
  apply Qfloor_comp. now rewrite tick_time_hours.
Qed.


End SchedulerFacts.

(** * The claims *)

Import PyStr Chunker Completion Session Scheduler Samples.
Import PyStrFacts ChunkerFacts CompletionFacts SessionFacts SchedulerFacts.

(** ** Scheduler *)

(** C1 (fails on the code): the claim says that the sleep always ends on an
    hour boundary whose hour of day is divisible by the cadence.  At
    00:00:00 with cadence 3 the computed delay is 7200 seconds: the sleep
    ends on an hour boundary, at 02:00, and 2 is not divisible by 3. *)
Theorem C1_midnight_cadence_three_ticks_at_two :
  (seconds_till_next_run midnight 3 == 7200)%Q
  /\ on_hour_boundary (tick_time midnight 3)
  /\ hour_of_day (tick_time midnight 3) = 2%Z
  /\ (hour_of_day (tick_time midnight 3) mod 3)%Z <> 0%Z.
Proof.
  split; [reflexivity|]. split; [apply tick_on_hour_boundary|].
  rewrite tick_hour. split; [reflexivity|discriminate].
Qed.



(** ** TextChunker *)

(** C7 (as stated, fails): with every whitespace-delimited word of
    ["a  b"] no longer than 10, the claim wants the segments joined by
    single spaces to be ["a b"] and every segment to fit; the code keeps the
    double space. *)
Lemma C7_double_space_is_kept :
  ~ (Forall (fun w => (len w <= 10)%Z) (split_ws (lit "a  b")) ->
     join [space] (split_long_string (lit "a  b") 10)
     = normalize_ws (lit "a  b")
     /\ Forall (fun seg => (len seg <= 10)%Z)
               (split_long_string (lit "a  b") 10)).
Proof.
  intros H. destruct H as [H _].
  - repeat constructor; discriminate.
  - vm_compute in H. discriminate.
Qed.

(** Only the space character delimits the words the loop sees: a word pair
    held together by a TAB is one item, and it is emitted whole. *)
Lemma tab_does_not_delimit :
  let text := lit "abc" ++ "009"%char :: lit "def" in
  Forall (fun w => (len w <= 3)%Z) (split_ws text)
  /\ split_long_string text 3 = [lit ""; text].
Proof.
  cbv zeta. split; [repeat constructor; discriminate|reflexivity].
Qed.

(** C7 (amended): when [max_length] is at least the length of every item of
    [text.split(' ')], the segments joined by single spaces and the text are
    equal once whitespace runs are normalised in both, and every segment has
    length at most [max_length]. *)
Theorem C7_segments_keep_words_and_fit (text : str) (max_length : Z) :
  Forall (fun w => (len w <= max_length)%Z) (split_space text) ->
  normalize_ws (join [space] (split_long_string text max_length))
  = normalize_ws text
  /\ Forall (fun seg => (len seg <= max_length)%Z)
            (split_long_string text max_length).
Proof.
  intros Hw; split.
  - unfold normalize_ws.
    now rewrite split_ws_join, split_long_string_words.
  - now apply split_long_string_fits.
Qed.

Lemma C7_segments_keep_words_and_fit_example :
  normalize_ws
    (join [space] (split_long_string (lit "hello big  world and more") 9))
  = normalize_ws (lit "hello big  world and more")
  /\ Forall (fun seg => (len seg <= 9)%Z)
            (split_long_string (lit "hello big  world and more") 9).
Proof.
  apply (C7_segments_keep_words_and_fit (lit "hello big  world and more") 9).
  vm_compute. repeat constructor; discriminate.
Defined.

(** C8 (fails on the code): the function is total and gives at least one
    segment for every text, but for the empty text it gives one segment, the
    empty string, where the claim says it gives none. *)
Theorem C8_empty_text_gives_an_empty_segment :
  (forall text max_length, split_long_string text max_length <> [])
  /\ (forall max_length, split_long_string (lit "") max_length = [lit ""])
  /\ split_long_string (lit "") MAX_MESSAGE_LENGTH <> [].
Proof.
  split; [apply split_long_string_not_nil|].
  split; [apply split_long_string_empty|discriminate].
Qed.

(** ** CompletionClient *)

(** C6: a call issues at most 3 requests; when all of them fail the call
    raises, after exactly 3 requests; when one of them would succeed the
    call raises nothing.  So the call raises exactly when all three fail. *)
Theorem C6_three_attempts_then_raise (create : Endpoint) (n : nat)
        (messages : list Message) (message model : str) :
  let call := send_message_to_chatgpt create n messages message model in
  let sent := messages ++ [user_turn message] in
  (n <= requests_after call <= n + 3)%nat
  /\ (outcome_of call = Raised
      <-> forall j, (j < 3)%nat -> create (n + j)%nat model sent = None)
  /\ (outcome_of call = Raised -> requests_after call = (n + 3)%nat).
Proof.
  cbv zeta. unfold send_message_to_chatgpt, call_openai_chat_api, user_turn.
  set (sent := messages ++ _).
  pose proof (retry_requests create 3 n model sent) as Hn.
  destruct (retry create 3 n model sent) as [[r|] n'] eqn:E;
    unfold outcome_of, requests_after; cbn [fst snd] in *.
  - split; [exact Hn|]. split; [split|]; try discriminate.
    intros Hall. rewrite (retry_all_fail create 3 n model sent Hall) in E.
    discriminate.
  - pose proof (retry_raised create 3 n n' model sent E) as Hall.
    split; [exact Hn|]. split; [split; auto|].
    intros _. rewrite (retry_all_fail create 3 n model sent Hall) in E.
    now inversion E.
Qed.

(** C10: when the endpoint fails on all three attempts, the call raises and
    leaves the history with one new entry, the user turn. *)
Theorem C10_failed_call_keeps_user_turn (create : Endpoint) (n : nat)
        (messages : list Message) (message model : str) :
  (forall j, (j < 3)%nat ->
             create (n + j)%nat model (messages ++ [user_turn message])
             = None) ->
  send_message_to_chatgpt create n messages message model
  = (messages ++ [user_turn message], Raised, (n + 3)%nat).
Proof.
  intros Hall. unfold send_message_to_chatgpt, call_openai_chat_api.
  fold (user_turn message).
  now rewrite (retry_all_fail create 3 n model _ Hall).
Qed.

Lemma C10_failed_call_keeps_user_turn_example :
  send_message_to_chatgpt never 0 [system_turn (lit "old")] (lit "hi")
                          (lit "gpt-4")
  = ([system_turn (lit "old"); user_turn (lit "hi")], Raised, 3%nat).
Proof.
  apply (C10_failed_call_keeps_user_turn
           never 0 [system_turn (lit "old")] (lit "hi") (lit "gpt-4")).
  intros j _. reflexivity.
Defined.

(** C4 (as stated, fails): not every call appends a user turn and a reply;
    a call whose three attempts fail appends the user turn only. *)
Lemma C4_failed_call_appends_one_entry :
  ~ (forall (create : Endpoint) (n : nat) (messages : list Message)
            (message model : str),
        exists reply,
          history_after
            (send_message_to_chatgpt create n messages message model)
          = messages ++ [user_turn message; system_turn reply]).
Proof.
  intros H. destruct (H never 0%nat [] (lit "hi") (lit "gpt-4")) as [r Hr].
  vm_compute in Hr. discriminate.
Qed.

(** C4 (amended): every call in which one of the at most three attempts
    succeeds, also after failed attempts, returns that reply and appends
    exactly two entries to the history, the user turn with the new content
    and then the system turn with the reply; the entries before stay. *)
Theorem C4_returning_call_appends_two_entries (create : Endpoint)
        (n j : nat) (messages : list Message) (message model reply : str) :
  (j < 3)%nat ->
  create (n + j)%nat model (messages ++ [user_turn message]) = Some reply ->
  (forall i, (i < j)%nat ->
             create (n + i)%nat model (messages ++ [user_turn message])
             = None) ->
  send_message_to_chatgpt create n messages message model
  = (messages ++ [user_turn message; system_turn reply],
     Returned reply, S (n + j)).
Proof.
  intros Hj Hr Hfail. unfold send_message_to_chatgpt, call_openai_chat_api.
  fold (user_turn message).
  rewrite (retry_first_success create 3 n j model _ reply Hj Hr Hfail).
  now rewrite <- app_assoc.
Qed.

Lemma C4_returning_call_after_two_failures :
  send_message_to_chatgpt (from_request 2 (lit "ok")) 0
                          [system_turn (lit "old")] (lit "hi") (lit "gpt-4")
  = ([system_turn (lit "old"); user_turn (lit "hi"); system_turn (lit "ok")],
     Returned (lit "ok"), 3%nat).
Proof.
  apply (C4_returning_call_appends_two_entries
           (from_request 2 (lit "ok")) 0 2 [system_turn (lit "old")]
           (lit "hi") (lit "gpt-4") (lit "ok")).
  - lia.
  - reflexivity.
  - intros i Hi. destruct i as [|[|i]]; [reflexivity|reflexivity|lia].
Defined.

(** ** SessionController *)



(** C2 (as stated, fails): with the task "Plan my day" the first message is
    not the task text verbatim; it is the task text inside the template of
    the announcement. *)
Lemma C2_first_message_is_not_verbatim :
  ~ (outbox (on_ready (always (lit "Walk, then work.")) plan_cfg true []
                      new_bot)
     = [lit "Plan my day"; GENERATING; lit "Walk, then work."]).
Proof.
  vm_compute. discriminate.
Qed.

(** C2 (amended): on the first readiness signal, when the recipient is
    found and the first completion call returns [reply], the recipient
    receives in this order, before the loop starts: the task text inside
    the announcement template, the "generating plan" notice, and [reply],
    whole if its length is at most 2000 and otherwise as the segments of
    [split_long_string]. *)
Theorem C2_handshake_deliveries (create : Endpoint) (cfg : Config) (b : Bot)
        (messages' : list Message) (reply : str) (n' : nat) :
  initialized b = false ->
  send_message_to_chatgpt create (requests b) (messages b) (task_prompt cfg)
                          (model cfg)
  = (messages', Returned reply, n') ->
  outbox (on_ready create cfg true [] b)
  = outbox b
    ++ [INSTRUCTION_OPEN ++ task_prompt cfg ++ INSTRUCTION_CLOSE; GENERATING]
    ++ (if (len reply >? MAX_MESSAGE_LENGTH)%Z
        then split_long_string reply MAX_MESSAGE_LENGTH
        else [reply]).
Proof.
  intros Hinit Hcall. unfold on_ready. rewrite Hinit. cbn [outbox].
  unfold send_periodic_message, handshake.
  unfold bind at 1 2 3. cbn [user_send].
  unfold bind at 1. cbn [user_send].
  unfold bind at 1.
  erewrite chat_eq by (cbn [requests messages]; exact Hcall).
  cbn [initialized requests outbox replies messages].
  unfold bind at 1.
  destruct (len reply >? MAX_MESSAGE_LENGTH)%Z.
  - rewrite for_each_user_send. cbn [outbox].
    unfold bind. 
    match goal with |- context [chat create cfg ?m ?x] =>
      pose proof (chat_outbox create cfg m x) as Ho;
      destruct (chat create cfg m x) as [[r|] bb] end;
      cbn [snd ret for_each outbox] in *; rewrite Ho;
      now rewrite <- !app_assoc.
  - cbn [user_send].
    unfold bind.
    match goal with |- context [chat create cfg ?m ?x] =>
      pose proof (chat_outbox create cfg m x) as Ho;
      destruct (chat create cfg m x) as [[r|] bb] end;
      cbn [snd ret for_each outbox] in *; rewrite Ho;
      now rewrite <- !app_assoc.
Qed.

Lemma C2_handshake_deliveries_plan_my_day :
  outbox (on_ready (from_request 1 (lit "Walk, then work.")) plan_cfg true []
                   new_bot)
  = outbox new_bot
    ++ [INSTRUCTION_OPEN ++ task_prompt plan_cfg ++ INSTRUCTION_CLOSE;
        GENERATING]
    ++ (if (len (lit "Walk, then work.") >? MAX_MESSAGE_LENGTH)%Z
        then split_long_string (lit "Walk, then work.") MAX_MESSAGE_LENGTH
        else [lit "Walk, then work."]).
Proof.
  apply (C2_handshake_deliveries
           (from_request 1 (lit "Walk, then work.")) plan_cfg new_bot
           [user_turn (lit "Plan my day");
            system_turn (lit "Walk, then work.")]
           (lit "Walk, then work.") 2%nat).
  - reflexivity.
  - reflexivity.
Defined.

(** A second readiness signal starts nothing. *)
Lemma on_ready_once (create : Endpoint) (cfg : Config) (user_found : bool)
      (times : list str) (b : Bot) :
  initialized b = true -> on_ready create cfg user_found times b = b.
Proof. unfold on_ready. now intros ->. Qed.

(** C3 (fails on the code): only the first reply of the handshake goes
    through [split_long_string].  A tick whose reply has 3000 characters, in
    words of three letters, sends it to the recipient as one message, and
    so does the command [g] to its channel; the chunker would have cut it
    into segments that fit. *)
Theorem C3_long_tick_reply_is_sent_whole :
  outbox (snd (tick (always long_reply) plan_cfg three_o_clock new_bot))
  = [long_reply]
  /\ replies (snd (g (always long_reply) plan_cfg (lit "hi") new_bot))
     = [long_reply]
  /\ len long_reply = 3000%Z
  /\ (len long_reply >? MAX_MESSAGE_LENGTH)%Z = true
  /\ Forall (fun seg => (len seg <= MAX_MESSAGE_LENGTH)%Z)
            (split_long_string long_reply MAX_MESSAGE_LENGTH).
Proof.
  split; [vm_compute; reflexivity|].
  split; [vm_compute; reflexivity|].
  split; [vm_compute; reflexivity|].
  split; [vm_compute; reflexivity|].
  apply split_long_string_fits.
  apply Forall_forall. intros w Hw.
  assert (H : forallb (fun w => (len w <=? MAX_MESSAGE_LENGTH)%Z)
                      (split_space long_reply) = true)
    by (vm_compute; reflexivity).
  rewrite forallb_forall in H. apply Z.leb_le. now apply H.
Qed.

(** * Further properties of the code *)

(** ** More on [strip] *)

Module StripFacts.
Import PyStr PyStrFacts Shapes.

Lemma forallb_isspace_rev (s : str) :
  forallb isspace (rev s) = forallb isspace s.
Proof.
  induction s as [|c s IH]; [reflexivity|].
  cbn [rev forallb]. rewrite forallb_app, IH. cbn [forallb].
  rewrite andb_true_r. apply andb_comm.
Qed.

Lemma lstrip_blank (s : str) : forallb isspace s = true -> lstrip s = [].
Proof.
  induction s as [|c s IH]; [reflexivity|].
  cbn [forallb lstrip]. intros [-> H]%andb_prop. auto.
Qed.

Lemma lstrip_app (a b : str) :
  lstrip (a ++ b) = if forallb isspace a then lstrip b else lstrip a ++ b.
Proof.
  induction a as [|c a IH]; [reflexivity|].
  cbn [app lstrip forallb]. destruct (isspace c); [exact IH|reflexivity].
Qed.

Lemma lstrip_head (s : str) (c : ascii) :
  hd_error (lstrip s) = Some c -> isspace c = false.
Proof.
  induction s as [|x s IH]; [discriminate|].
  cbn [lstrip]. destruct (isspace x) eqn:E; [exact IH|].
  cbn. intros H. now inversion H; subst.
Qed.

Lemma lstrip_fixed (s : str) (c : ascii) :
  hd_error s = Some c -> isspace c = false -> lstrip s = s.
Proof.
  destruct s as [|x s]; [discriminate|].
  cbn. intros H Hc. inversion H; subst. now rewrite Hc.
Qed.

(** A leading whitespace does not change what [strip] gives. *)
Lemma strip_cons_space (c : ascii) (s : str) :
  isspace c = true -> strip (c :: s) = strip s.
Proof.
  intros Hc. unfold strip, rstrip. cbn [rev]. rewrite lstrip_app.
  destruct (forallb isspace (rev s)) eqn:E.
  - cbn [lstrip]. rewrite Hc. now rewrite (lstrip_blank (rev s) E).
  - rewrite rev_app_distr. cbn [rev app lstrip]. now rewrite Hc.
Qed.

Lemma last_of_suffix (ws s : str) (c : ascii) :
  hd_error (rev s) = Some c -> hd_error (rev (ws ++ s)) = Some c.
Proof.
  rewrite rev_app_distr. destruct (rev s); [discriminate|]. now cbn.
Qed.

(** What [strip] gives neither starts nor ends with a whitespace. *)
Lemma strip_trimmed (s : str) : trimmed (strip s).
Proof.
  intros c [H|H].
  - now apply lstrip_head in H.
  - unfold strip in H.
    destruct (lstrip_spec (rstrip s)) as (ws & E & _).
    apply (last_of_suffix ws) in H. rewrite <- E in H.
    unfold rstrip in H. rewrite rev_involutive in H.
    now apply lstrip_head in H.
Qed.

(** [strip] leaves a tight string as it is. *)
Lemma strip_tight (s : str) : tight s -> strip s = s.
Proof.
  intros (a & b & Ha & Hna & Hb & Hnb). unfold strip, rstrip.
  rewrite (lstrip_fixed (rev s) b Hb Hnb), rev_involutive.
  exact (lstrip_fixed s a Ha Hna).
Qed.

Lemma tight_not_nil (s : str) : tight s -> s <> [].
Proof. intros (a & b & Ha & _) ->. discriminate. Qed.

Lemma tight_app (a b : str) (c : ascii) :
  tight a -> tight b -> tight (a ++ c :: b).
Proof.
  intros (a1 & a2 & Ha1 & Hn1 & _) (b1 & b2 & _ & _ & Hb2 & Hn2).
  exists a1, b2. repeat split; try assumption.
  - destruct a; [discriminate|exact Ha1].
  - change (c :: b) with ([c] ++ b). rewrite app_assoc.
    now apply last_of_suffix.
Qed.

Lemma plain_word_tight (w : str) : plain_word w -> tight w.
Proof.
  intros [Hne Hall]. rewrite forallb_forall in Hall.
  assert (Hin : forall c, In c w -> isspace c = false).
  { intros c Hc. apply Hall in Hc. now destruct (isspace c). }
  destruct w as [|a w]; [now elim Hne|].
  destruct (rev (a :: w)) as [|b r] eqn:E.
  - apply (f_equal (@length _)) in E. rewrite length_rev in E. discriminate.
  - exists a, b. split; [reflexivity|]. split; [apply Hin; now left|].
    split; [now rewrite E|]. apply Hin. apply in_rev. rewrite E. now left.
Qed.

End StripFacts.

(** ** More on [split_long_string] *)

Module ChunkerMore.
Import PyStr PyStrFacts Chunker ChunkerFacts Shapes StripFacts.

Lemma len_app (a b : str) : len (a ++ b) = (len a + len b)%Z.
Proof. unfold len. rewrite length_app. lia. Qed.

Lemma len_nonneg (a : str) : (0 <= len a)%Z.
Proof. unfold len. lia. Qed.

Lemma spaced_join (l : list str) :
  l <> [] -> concat (map (cons space) l) = space :: join [space] l.
Proof.
  induction l as [|x l IH]; [now intros H|]. intros _.
  destruct l as [|y l].
  - cbn. now rewrite app_nil_r.
  - change (concat (map (cons space) (x :: y :: l)))
      with ((space :: x) ++ concat (map (cons space) (y :: l))).
    rewrite IH by discriminate. reflexivity.
Qed.

Lemma spaced_split_space (text : str) :
  concat (map (cons space) (split_space text)) = space :: text.
Proof.
  rewrite spaced_join by apply split_space_not_nil.
  now rewrite join_split_space.
Qed.

(** While everything fits, the loop only extends the line. *)
Lemma loop_all_fit (max_length : Z) (words result : list str) (cur : str) :
  (len (cur ++ concat (map (cons space) words)) <= max_length)%Z ->
  fold_left (step max_length) words (result, cur)
  = (result, cur ++ concat (map (cons space) words)).
Proof.
  revert cur; induction words as [|w words IH]; intros cur H.
  - cbn. now rewrite app_nil_r.
  - cbn [fold_left step map concat] in *.
    assert (Hw : (len (cur ++ space :: w) <=? max_length)%Z = true).
    { apply Z.leb_le. rewrite !len_app in *.
      pose proof (len_nonneg (concat (map (cons space) words))). lia. }
    rewrite Hw, IH.
    + now rewrite <- app_assoc.
    + now rewrite <- app_assoc.
Qed.

(** The flushed segments only grow at the end. *)
Lemma loop_result_grows (max_length : Z) (words result : list str)
      (cur : str) :
  exists more,
    fst (fold_left (step max_length) words (result, cur)) = result ++ more.
Proof.
  revert result cur; induction words as [|w words IH]; intros result cur.
  - exists []. cbn. now rewrite app_nil_r.
  - cbn [fold_left step].
    destruct (len (cur ++ space :: w) <=? max_length)%Z.
    + apply IH.
    + destruct (IH (result ++ [strip cur]) w) as [more E].
      exists (strip cur :: more). rewrite E. now rewrite <- app_assoc.
Qed.

Lemma loop_trimmed (max_length : Z) (words : list str)
      (st : list str * str) :
  Forall trimmed (fst st) ->
  Forall trimmed (fst (fold_left (step max_length) words st)).
Proof.
  revert st; induction words as [|w words IH]; intros [result cur] H;
    [exact H|].
  cbn [fold_left]. apply IH. unfold step.
  destruct (len (cur ++ space :: w) <=? max_length)%Z; cbn [fst] in *;
    [exact H|].
  apply Forall_app; split; [exact H|].
  constructor; [apply strip_trimmed|constructor].
Qed.

Lemma split_space_no_space (text : str) :
  no_space text -> split_space text = [text].
Proof.
  unfold no_space. induction text as [|c text IH]; [reflexivity|].
  cbn [forallb split_space]. intros [Hc H]%andb_prop.
  destruct (Ascii.eqb c space); [discriminate|]. now rewrite (IH H).
Qed.

Lemma join_extend_last (sep : str) (l : list str) (c x : str) :
  join sep (l ++ [c ++ x]) = join sep (l ++ [c]) ++ x.
Proof.
  induction l as [|y l IH]; [reflexivity|].
  destruct l as [|z l]; [cbn; now rewrite <- !app_assoc|].
  cbn [app join] in *. rewrite IH. now rewrite <- !app_assoc.
Qed.

Lemma join_snoc (sep : str) (l : list str) (x : str) :
  l <> [] -> join sep (l ++ [x]) = join sep l ++ sep ++ x.
Proof.
  induction l as [|y l IH]; [now intros H|]. intros _.
  destruct l as [|z l]; [reflexivity|].
  cbn [app join] in *. rewrite IH by discriminate.
  now rewrite <- !app_assoc.
Qed.

(** On plain words a neat state stays neat, and the text it stands for
    grows by a space and the word. *)
Lemma step_neat (max_length : Z) (st : list str * str) (w : str) :
  neat st -> plain_word w ->
  neat (step max_length st w)
  /\ flat (step max_length st w) = flat st ++ space :: w.
Proof.
  destruct st as [result cur]; unfold neat, flat, step; cbn [fst snd].
  intros Hst Hw%plain_word_tight.
  destruct (len (cur ++ space :: w) <=? max_length)%Z; cbn [fst snd].
  - destruct result as [|r result].
    + destruct Hst as (s & Hs & ->). split; [|reflexivity].
      exists (s ++ space :: w). split; [now apply tight_app|reflexivity].
    + split; [now apply tight_app|].
      exact (f_equal (cons space)
               (join_extend_last [space] (r :: result) cur (space :: w))).
  - destruct result as [|r result].
    + destruct Hst as (s & Hs & ->). cbn [app]. split; [exact Hw|].
      rewrite (strip_cons_space space s space_isspace), (strip_tight s Hs).
      reflexivity.
    + split; [exact Hw|].
      rewrite (strip_tight cur Hst).
      assert (Hne : (r :: result) ++ [cur] <> []) by discriminate.
      exact (f_equal (cons space)
               (join_snoc [space] ((r :: result) ++ [cur]) w Hne)).
Qed.

Lemma loop_neat (max_length : Z) (words : list str) (st : list str * str) :
  neat st -> Forall plain_word words ->
  neat (fold_left (step max_length) words st)
  /\ flat (fold_left (step max_length) words st)
     = flat st ++ concat (map (cons space) words).
Proof.
  revert st; induction words as [|w words IH]; intros st Hst Hw.
  - cbn. now rewrite app_nil_r.
  - inversion Hw; subst. cbn [fold_left map concat].
    destruct (step_neat max_length st w Hst) as [Hn Hf]; [assumption|].
    destruct (IH _ Hn) as [Hn' Hf']; [assumption|].
    split; [exact Hn'|]. rewrite Hf', Hf. now rewrite <- app_assoc.
Qed.

End ChunkerMore.

(** ** The chunker, beyond the claims *)

Import Shapes StripFacts ChunkerMore.

(** X1: a text that fits together with one more character is returned as
    one segment, the stripped text. *)
Theorem short_text_is_one_segment (text : str) (max_length : Z) :
  (len text + 1 <= max_length)%Z ->
  split_long_string text max_length = [strip text].
Proof.
  intros H. unfold split_long_string.
  rewrite loop_all_fit.
  - rewrite spaced_split_space. cbn [app].
    now rewrite (strip_cons_space space text space_isspace).
  - rewrite spaced_split_space. cbn [app].
    unfold len in *. cbn [length]. lia.
Qed.

Lemma short_text_is_one_segment_example :
  split_long_string (lit " hello world ") 14 = [strip (lit " hello world ")].
Proof.
  apply (short_text_is_one_segment (lit " hello world ") 14).
  vm_compute. discriminate.
Defined.

(** X2: for a text of words free of whitespace, separated by single spaces,
    whose first word is shorter than [max_length], the segments joined by
    single spaces are the text again, whatever the length of the later
    words. *)
Theorem plain_text_round_trip (text : str) (max_length : Z) :
  Forall plain_word (split_space text) ->
  (len (hd [] (split_space text)) + 1 <= max_length)%Z ->
  join [space] (split_long_string text max_length) = text.
Proof.
  intros Hplain Hfirst. unfold split_long_string.
  pose proof (spaced_split_space text) as Htext.
  destruct (split_space text) as [|w ws] eqn:E;
    [now apply split_space_not_nil in E|].
  inversion Hplain as [|? ? Hw Hws]; subst.
  cbn [hd] in Hfirst. cbn [fold_left step app].
  assert (Hfit : (len (space :: w) <=? max_length)%Z = true).
  { apply Z.leb_le. unfold len in *. cbn [length]. lia. }
  rewrite Hfit.
  assert (Hneat : neat ([], space :: w)).
  { exists w. split; [now apply plain_word_tight|reflexivity]. }
  destruct (loop_neat max_length ws ([], space :: w) Hneat Hws) as [Hn Hf].
  destruct (fold_left (step max_length) ws ([], space :: w))
    as [result cur].
  unfold flat in Hf; unfold neat in Hn; cbn [fst snd] in *.
  cbn [map concat] in Htext. rewrite Htext in Hf.
  destruct result as [|r result].
  - destruct Hn as (s & Hs & ->). inversion Hf; subst.
    cbn [app]. rewrite (strip_cons_space space text space_isspace).
    now rewrite (strip_tight text Hs).
  - inversion Hf as [Hj]. pose proof (tight_not_nil cur Hn) as Hne.
    destruct cur as [|c cur]; [now elim Hne|].
    now rewrite (strip_tight (c :: cur) Hn).
Qed.

Lemma plain_text_round_trip_example :
  join [space]
       (split_long_string (lit "hello big world incomprehensibilities x") 9)
  = lit "hello big world incomprehensibilities x".
Proof.
  apply (plain_text_round_trip
           (lit "hello big world incomprehensibilities x") 9).
  - vm_compute. repeat constructor; discriminate.
  - vm_compute. discriminate.
Defined.

(** X3: no segment starts or ends with a whitespace character. *)
Theorem segments_are_trimmed (text : str) (max_length : Z) :
  Forall trimmed (split_long_string text max_length).
Proof.
  unfold split_long_string.
  pose proof (loop_trimmed max_length (split_space text) ([], [])
                (Forall_nil _)) as H.
  destruct (fold_left (step max_length) (split_space text) ([], []))
    as [result cur]; cbn [fst] in H.
  destruct cur as [|c cur]; [exact H|].
  apply Forall_app; split; [exact H|].
  constructor; [apply strip_trimmed|constructor].
Qed.

(** X4: when the first item of [text.split(' ')] does not fit together
    with one more character, the first segment is the empty string. *)
Theorem long_first_word_gives_empty_segment (text : str) (max_length : Z) :
  (max_length < len (hd [] (split_space text)) + 1)%Z ->
  exists rest, split_long_string text max_length = [] :: rest.
Proof.
  intros H. unfold split_long_string.
  destruct (split_space text) as [|w ws] eqn:E;
    [now apply split_space_not_nil in E|].
  cbn [hd] in H. cbn [fold_left step app].
  assert (Hfit : (len (space :: w) <=? max_length)%Z = false).
  { apply Z.leb_gt. unfold len in *. cbn [length]. lia. }
  rewrite Hfit. change (strip []) with (@nil ascii). cbn [app].
  destruct (loop_result_grows max_length ws [[]] w) as [more Hm].
  match goal with
  | |- context [let (_, _) := ?f in _] => destruct f as [result cur] eqn:Ef
  end.
  assert (Hr : result = [[]] ++ more).
  { change result with (fst (result, cur)). rewrite <- Ef. exact Hm. }
  subst result. destruct cur; [now exists more|]. now eexists.
Qed.

Lemma long_first_word_gives_empty_segment_example :
  exists rest, split_long_string (lit "abcdef gh") 6 = [] :: rest.
Proof.
  apply (long_first_word_gives_empty_segment (lit "abcdef gh") 6).
  vm_compute. reflexivity.
Defined.

(** X5: a text without a space character that does not fit together with
    one more character is never cut: it comes back whole (stripped), after
    an empty segment. *)
Theorem unspaced_text_is_never_cut (text : str) (max_length : Z) :
  no_space text -> text <> [] ->
  (max_length < len text + 1)%Z ->
  split_long_string text max_length = [[]; strip text].
Proof.
  intros Hns Hne H. unfold split_long_string.
  rewrite (split_space_no_space text Hns). cbn [fold_left step app].
  assert (Hfit : (len (space :: text) <=? max_length)%Z = false).
  { apply Z.leb_gt. unfold len in *. cbn [length]. lia. }
  rewrite Hfit. destruct text; [now elim Hne|reflexivity].
Qed.

Lemma unspaced_text_is_never_cut_example :
  split_long_string (lit "incomprehensibilities") 10
  = [[]; strip (lit "incomprehensibilities")].
Proof.
  apply (unspaced_text_is_never_cut (lit "incomprehensibilities") 10).
  - reflexivity.
  - discriminate.
  - vm_compute. reflexivity.
Defined.

(** ** More on the completion client and the session *)

Module SessionMore.
Import PyStr Chunker Completion Session Samples Shapes.
Import CompletionFacts SessionFacts.

Section Client.
Variable create : Endpoint.

Lemma send_all_fail (n : nat) (messages : list Message)
      (message model : str) :
  (forall j, (j < 3)%nat ->
             create (n + j)%nat model (messages ++ [user_turn message])
             = None) ->
  send_message_to_chatgpt create n messages message model
  = (messages ++ [user_turn message], Raised, (n + 3)%nat).
Proof.
  intros Hall. unfold send_message_to_chatgpt, call_openai_chat_api.
  fold (user_turn message).
  now rewrite (retry_all_fail create 3 n model _ Hall).
Qed.

(** Whatever the outcome, a call extends the history by the user entry,
    followed by the reply if there is one. *)
Lemma send_history (n : nat) (messages : list Message)
      (message model : str) :
  let call := send_message_to_chatgpt create n messages message model in
  match outcome_of call with
  | Returned reply =>
      history_after call
      = messages ++ [user_turn message; system_turn reply]
  | Raised => history_after call = messages ++ [user_turn message]
  end.
Proof.
  cbv zeta. unfold send_message_to_chatgpt, history_after, outcome_of.
  destruct (call_openai_chat_api create n model _) as [[r|] m];
    cbn [fst snd]; [|reflexivity].
  now rewrite <- app_assoc.
Qed.

End Client.

Lemma bind_returned {A B : Type} (t : Task A) (k : A -> Task B) (b b' : Bot)
      (a : A) :
  t b = (Returned a, b') -> bind t k b = k a b'.
Proof. unfold bind. now intros ->. Qed.

Lemma bind_raised {A B : Type} (t : Task A) (k : A -> Task B) (b b' : Bot) :
  t b = (Raised, b') -> bind t k b = (Raised, b').
Proof. unfold bind. now intros ->. Qed.

Lemma well_paired_firstn (k : nat) (h : list Message) :
  well_paired h -> well_paired (firstn k h).
Proof.
  intros H; revert k; induction H as [|h text H IH|h text reply H IH];
    intros k.
  - rewrite firstn_nil. constructor.
  - rewrite firstn_app.
    destruct (k - length h)%nat as [|d] eqn:E.
    + cbn. rewrite app_nil_r. apply IH.
    + rewrite (firstn_all2 h) by lia.
      cbn [firstn]. rewrite firstn_nil. now constructor.
  - rewrite firstn_app.
    destruct (k - length h)%nat as [|[|d]] eqn:E.
    + cbn. rewrite app_nil_r. apply IH.
    + rewrite (firstn_all2 h) by lia. cbn [firstn]. now constructor.
    + rewrite (firstn_all2 h) by lia.
      cbn [firstn]. rewrite firstn_nil. now constructor.
Qed.

Lemma keeps_ret {A : Type} (a : A) : keeps_paired (ret a).
Proof. intros b H. exact H. Qed.

Lemma keeps_bind {A B : Type} (t : Task A) (k : A -> Task B) :
  keeps_paired t -> (forall a, keeps_paired (k a)) ->
  keeps_paired (bind t k).
Proof.
  intros Ht Hk b H. unfold bind. specialize (Ht b H).
  destruct (t b) as [[a|] b']; cbn [snd] in *; [now apply Hk|exact Ht].
Qed.

Lemma keeps_for_each {A : Type} (l : list A) (body : A -> Task unit) :
  (forall a, keeps_paired (body a)) -> keeps_paired (for_each l body).
Proof.
  intros Hb. induction l as [|x l IH]; cbn [for_each].
  - apply keeps_ret.
  - apply keeps_bind; [apply Hb|intros _; exact IH].
Qed.

Lemma keeps_user_send (text : str) : keeps_paired (user_send text).
Proof. intros b H. exact H. Qed.

Lemma keeps_ctx_send (text : str) : keeps_paired (ctx_send text).
Proof. intros b H. exact H. Qed.

Lemma keeps_retract (n : Z) : keeps_paired (_retract_last_n_message n).
Proof.
  intros b H. cbn [_retract_last_n_message snd messages].
  unfold slice_to. now apply well_paired_firstn.
Qed.

Section Controller.
Variable create : Endpoint.
Variable cfg : Config.

Lemma keeps_chat (message : str) : keeps_paired (chat create cfg message).
Proof.
  intros b H. unfold chat.
  pose proof (send_history create (requests b) (messages b) message
                (model cfg)) as Hh.
  cbv zeta in Hh. unfold history_after, outcome_of in Hh.
  destruct (send_message_to_chatgpt create _ _ _ _) as [[m o] n].
  cbn [fst snd messages] in *.
  destruct o as [r|]; rewrite Hh; now constructor.
Qed.

Lemma keeps_tick (time : str) : keeps_paired (tick create cfg time).
Proof.
  unfold tick. apply keeps_bind; [apply keeps_chat|]. intros r.
  destruct (contains NOTHING_TO_DO (lower r));
    [apply keeps_retract|apply keeps_user_send].
Qed.

Lemma keeps_handshake : keeps_paired (handshake create cfg).
Proof.
  unfold handshake.
  apply keeps_bind; [apply keeps_user_send|intros _].
  apply keeps_bind; [apply keeps_user_send|intros _].
  apply keeps_bind; [apply keeps_chat|intros r].
  apply keeps_bind.
  - destruct (len r >? MAX_MESSAGE_LENGTH)%Z;
      [apply keeps_for_each; apply keeps_user_send|apply keeps_user_send].
  - intros _. apply keeps_bind; [apply keeps_chat|intros _; apply keeps_ret].
Qed.

Lemma keeps_send_periodic_message (user_found : bool) (times : list str) :
  keeps_paired (send_periodic_message create cfg user_found times).
Proof.
  unfold send_periodic_message. destruct user_found; [|apply keeps_ret].
  apply keeps_bind; [apply keeps_handshake|intros _].
  apply keeps_for_each. apply keeps_tick.
Qed.

Lemma chat_returned (message : str) (b : Bot) (messages' : list Message)
      (reply : str) (n' : nat) :
  send_message_to_chatgpt create (requests b) (messages b) message
                          (model cfg) = (messages', Returned reply, n') ->
  chat create cfg message b
  = (Returned reply,
     with_history b (messages b ++ [user_turn message; system_turn reply])
                  n').
Proof.
  intros H. rewrite (chat_eq create cfg message b _ _ _ H).
  now rewrite (send_returned create _ _ _ _ _ _ _ H).
Qed.

Lemma chat_raised (message : str) (b : Bot) :
  (forall j, (j < 3)%nat ->
             create (requests b + j)%nat (model cfg)
                    (messages b ++ [user_turn message]) = None) ->
  chat create cfg message b
  = (Raised,
     with_history b (messages b ++ [user_turn message])
                  (requests b + 3)%nat).
Proof.
  intros H.
  exact (chat_eq create cfg message b _ _ _
           (send_all_fail create _ _ _ _ H)).
Qed.

End Controller.

End SessionMore.

(** ** The session, beyond the claims *)

Import SessionMore.

(** X6: every entry point keeps the history well paired: after a readiness
    signal (handshake and any number of ticks), after the command [g] and
    after a retraction of any size, each system entry still directly
    follows the user entry it answers. *)
Theorem history_stays_well_paired (create : Endpoint) (cfg : Config)
        (user_found : bool) (times : list str) (message : str) (n : Z)
        (b : Bot) :
  well_paired (messages b) ->
  well_paired (messages (on_ready create cfg user_found times b))
  /\ well_paired (messages (snd (g create cfg message b)))
  /\ well_paired (messages (snd (_retract_last_n_message n b))).
Proof.
  intros H. split; [|split].
  - unfold on_ready. destruct (initialized b); [exact H|].
    cbn [messages]. now apply keeps_send_periodic_message.
  - revert b H. change (keeps_paired (g create cfg message)).
    unfold g. apply keeps_bind; [apply keeps_chat|].
    intros r. apply keeps_ctx_send.
  - now apply keeps_retract.
Qed.

Lemma history_stays_well_paired_example :
  well_paired
    (messages (on_ready (from_request 4 (lit "nothing to do now")) plan_cfg
                        true [three_o_clock] new_bot))
  /\ well_paired
       (messages (snd (g (from_request 4 (lit "nothing to do now"))
                         plan_cfg (lit "hi") new_bot)))
  /\ well_paired (messages (snd (_retract_last_n_message 1 new_bot))).
Proof.
  apply (history_stays_well_paired
           (from_request 4 (lit "nothing to do now")) plan_cfg true
           [three_o_clock] (lit "hi") 1 new_bot).
  constructor.
Defined.

(** X7: a readiness signal after the first changes nothing, whatever the
    first one did. *)
Theorem on_ready_twice (create : Endpoint) (cfg : Config)
        (user_found : bool) (times times' : list str) (b : Bot) :
  on_ready create cfg user_found times'
           (on_ready create cfg user_found times b)
  = on_ready create cfg user_found times b.
Proof.
  unfold on_ready at 1.
  assert (H : initialized (on_ready create cfg user_found times b) = true).
  { unfold on_ready. destruct (initialized b) eqn:E; [exact E|reflexivity]. }
  now rewrite H.
Qed.

(** X8: when both completion calls of the handshake return, the history
    gains four entries, the task and its reply and the loop instruction and
    its reply, and the recipient gets the announcement, the notice and the
    first reply only: the second reply is kept in the history and sent to
    nobody. *)
Theorem handshake_returns (create : Endpoint) (cfg : Config) (b : Bot)
        (m1 m2 : list Message) (r1 r2 : str) (n1 n2 : nat) :
  send_message_to_chatgpt create (requests b) (messages b) (task_prompt cfg)
                          (model cfg)
  = (m1, Returned r1, n1) ->
  send_message_to_chatgpt create n1 m1 (loop_prompt cfg) (model cfg)
  = (m2, Returned r2, n2) ->
  handshake create cfg b
  = (Returned tt,
     with_history
       (with_sent b ([INSTRUCTION_OPEN ++ task_prompt cfg
                        ++ INSTRUCTION_CLOSE; GENERATING]
                     ++ reply_messages r1))
       (messages b ++ [user_turn (task_prompt cfg); system_turn r1;
                       user_turn (loop_prompt cfg); system_turn r2])
       n2).
Proof.
  intros H1 H2.
  pose proof (send_returned create _ _ _ _ _ _ _ H1) as E1.
  fold (user_turn (task_prompt cfg)) in E1. fold (system_turn r1) in E1.
  unfold handshake.
  unfold bind at 1. cbn [user_send]. unfold bind at 1. cbn [user_send].
  erewrite (bind_returned (chat create cfg (task_prompt cfg)))
    by (eapply chat_returned; cbn [requests messages]; exact H1).
  assert (Hsend : forall b0,
             (if (len r1 >? MAX_MESSAGE_LENGTH)%Z
              then for_each (split_long_string r1 MAX_MESSAGE_LENGTH)
                            user_send
              else user_send r1) b0
             = (Returned tt, with_sent b0 (reply_messages r1))).
  { intros b0. unfold reply_messages.
    destruct (len r1 >? MAX_MESSAGE_LENGTH)%Z;
      [apply for_each_user_send|reflexivity]. }
  erewrite bind_returned by apply Hsend.
  erewrite bind_returned.
  2:{ eapply chat_returned. cbn [requests messages with_sent with_history].
      rewrite <- E1. exact H2. }
  unfold ret, with_history, with_sent. cbn.
  now rewrite <- !app_assoc.
Qed.

Lemma handshake_returns_example :
  handshake (always (lit "ok")) plan_cfg new_bot
  = (Returned tt,
     with_history
       (with_sent new_bot
                  ([INSTRUCTION_OPEN ++ task_prompt plan_cfg
                      ++ INSTRUCTION_CLOSE; GENERATING]
                   ++ reply_messages (lit "ok")))
       (messages new_bot
        ++ [user_turn (task_prompt plan_cfg); system_turn (lit "ok");
            user_turn (loop_prompt plan_cfg); system_turn (lit "ok")])
       2%nat).
Proof.
  apply (handshake_returns
           (always (lit "ok")) plan_cfg new_bot
           [user_turn (lit "Plan my day"); system_turn (lit "ok")]
           [user_turn (lit "Plan my day"); system_turn (lit "ok");
            user_turn (lit "Remind me hourly"); system_turn (lit "ok")]
           (lit "ok") (lit "ok") 1 2).
  - reflexivity.
  - reflexivity.
Defined.

(** X9: when the first completion call fails on its three attempts, the
    recipient has the announcement and the notice and nothing else, the
    history keeps the task as a user entry without reply, and no tick ever
    runs. *)
Theorem first_call_failure_ends_the_task (create : Endpoint) (cfg : Config)
        (times : list str) (b : Bot) :
  (forall j, (j < 3)%nat ->
             create (requests b + j)%nat (model cfg)
                    (messages b ++ [user_turn (task_prompt cfg)]) = None) ->
  send_periodic_message create cfg true times b
  = (Raised,
     with_history
       (with_sent b [INSTRUCTION_OPEN ++ task_prompt cfg
                       ++ INSTRUCTION_CLOSE; GENERATING])
       (messages b ++ [user_turn (task_prompt cfg)])
       (requests b + 3)%nat).
Proof.
  intros H. unfold send_periodic_message.
  apply bind_raised. unfold handshake.
  unfold bind at 1. cbn [user_send]. unfold bind at 1. cbn [user_send].
  erewrite bind_raised.
  2:{ apply chat_raised. cbn [requests messages]. exact H. }
  unfold with_history, with_sent. cbn. now rewrite <- app_assoc.
Qed.

Lemma first_call_failure_ends_the_task_example :
  send_periodic_message never plan_cfg true [three_o_clock] new_bot
  = (Raised,
     with_history
       (with_sent new_bot [INSTRUCTION_OPEN ++ task_prompt plan_cfg
                             ++ INSTRUCTION_CLOSE; GENERATING])
       (messages new_bot ++ [user_turn (task_prompt plan_cfg)])
       (requests new_bot + 3)%nat).
Proof.
  apply (first_call_failure_ends_the_task never plan_cfg [three_o_clock]
                                           new_bot).
  intros j _. reflexivity.
Defined.

(** X10: when the first call returns and the call with the loop instruction
    fails on its three attempts, the first reply has been delivered, the
    history ends with the loop instruction as a user entry without reply,
    and no tick ever runs. *)
Theorem loop_seed_failure_ends_the_task (create : Endpoint) (cfg : Config)
        (times : list str) (b : Bot) (m1 : list Message) (r1 : str)
        (n1 : nat) :
  send_message_to_chatgpt create (requests b) (messages b) (task_prompt cfg)
                          (model cfg)
  = (m1, Returned r1, n1) ->
  (forall j, (j < 3)%nat ->
             create (n1 + j)%nat (model cfg)
                    (m1 ++ [user_turn (loop_prompt cfg)]) = None) ->
  send_periodic_message create cfg true times b
  = (Raised,
     with_history
       (with_sent b ([INSTRUCTION_OPEN ++ task_prompt cfg
                        ++ INSTRUCTION_CLOSE; GENERATING]
                     ++ reply_messages r1))
       (messages b ++ [user_turn (task_prompt cfg); system_turn r1;
                       user_turn (loop_prompt cfg)])
       (n1 + 3)%nat).
Proof.
  intros H1 H2.
  pose proof (send_returned create _ _ _ _ _ _ _ H1) as E1.
  fold (user_turn (task_prompt cfg)) in E1. fold (system_turn r1) in E1.
  unfold send_periodic_message. apply bind_raised. unfold handshake.
  unfold bind at 1. cbn [user_send]. unfold bind at 1. cbn [user_send].
  erewrite (bind_returned (chat create cfg (task_prompt cfg)))
    by (eapply chat_returned; cbn [requests messages]; exact H1).
  assert (Hsend : forall b0,
             (if (len r1 >? MAX_MESSAGE_LENGTH)%Z
              then for_each (split_long_string r1 MAX_MESSAGE_LENGTH)
                            user_send
              else user_send r1) b0
             = (Returned tt, with_sent b0 (reply_messages r1))).
  { intros b0. unfold reply_messages.
    destruct (len r1 >? MAX_MESSAGE_LENGTH)%Z;
      [apply for_each_user_send|reflexivity]. }
  erewrite bind_returned by apply Hsend.
  erewrite bind_raised.
  2:{ apply chat_raised. cbn [requests messages with_sent with_history].
      rewrite <- E1. exact H2. }
  unfold with_history, with_sent. cbn. now rewrite <- !app_assoc.
Qed.

Lemma loop_seed_failure_ends_the_task_example :
  send_periodic_message
    (fun n _ _ => if (n =? 0)%nat then Some (lit "ok") else None)
    plan_cfg true [three_o_clock] new_bot
  = (Raised,
     with_history
       (with_sent new_bot
                  ([INSTRUCTION_OPEN ++ task_prompt plan_cfg
                      ++ INSTRUCTION_CLOSE; GENERATING]
                   ++ reply_messages (lit "ok")))
       (messages new_bot
        ++ [user_turn (task_prompt plan_cfg); system_turn (lit "ok");
            user_turn (loop_prompt plan_cfg)])
       (1 + 3)%nat).
Proof.
  apply (loop_seed_failure_ends_the_task
           (fun n _ _ => if (n =? 0)%nat then Some (lit "ok") else None)
           plan_cfg [three_o_clock] new_bot
           [user_turn (lit "Plan my day"); system_turn (lit "ok")]
           (lit "ok") 1).
  - reflexivity.
  - intros j _. reflexivity.
Defined.

(** X11: a tick whose completion call fails on its three attempts ends the
    loop: the later ticks do not run, nothing is sent, and the history
    keeps the marker turn without reply. *)
Theorem failed_tick_ends_the_loop (create : Endpoint) (cfg : Config)
        (time : str) (later : list str) (b : Bot) :
  (forall j, (j < 3)%nat ->
             create (requests b + j)%nat (model cfg)
                    (messages b ++ [user_turn (SCHEDULER_PREFIX ++ time)])
             = None) ->
  for_each (time :: later) (tick create cfg) b
  = (Raised,
     with_history b (messages b ++ [user_turn (SCHEDULER_PREFIX ++ time)])
                  (requests b + 3)%nat).
Proof.
  intros H. cbn [for_each]. apply bind_raised. unfold tick.
  apply bind_raised. now apply chat_raised.
Qed.

Lemma failed_tick_ends_the_loop_example :
  for_each [three_o_clock; lit "11/03/2026 06:00:00"] (tick never plan_cfg)
           new_bot
  = (Raised,
     with_history new_bot
                  (messages new_bot
                   ++ [user_turn (SCHEDULER_PREFIX ++ three_o_clock)])
                  (requests new_bot + 3)%nat).
Proof.
  apply (failed_tick_ends_the_loop never plan_cfg three_o_clock
                                   [lit "11/03/2026 06:00:00"] new_bot).
  intros j _. reflexivity.
Defined.

Lemma quiet_tick (create : Endpoint) (cfg : Config) (time : str) (b : Bot)
      (messages' : list Message) (reply : str) (n' : nat) :
  send_message_to_chatgpt create (requests b) (messages b)
                          (SCHEDULER_PREFIX ++ time) (model cfg)
  = (messages', Returned reply, n') ->
  contains NOTHING_TO_DO (lower reply) = true ->
  tick create cfg time b = (Returned tt, with_history b (messages b) n').
Proof.
  intros Hcall Hq. unfold tick.
  rewrite (bind_returned _ _ b _ reply
             (chat_returned create cfg _ b _ _ _ Hcall)).
  rewrite Hq. unfold _retract_last_n_message, with_history.
  cbn [messages initialized requests outbox replies].
  now rewrite slice_to_drop_two.
Qed.

(** X12: as long as every reply holds the phrase "nothing to do now" in
    some letter case, any number of ticks leaves the history and the
    recipient's messages as they were; only the request counter moves, by
    one per tick. *)
Theorem quiet_ticks_leave_no_trace (create : Endpoint) (cfg : Config)
        (times : list str) (b : Bot) :
  (forall n model history,
      exists reply, create n model history = Some reply
                    /\ occurs_any_case NOTHING_TO_DO reply) ->
  for_each times (tick create cfg) b
  = (Returned tt,
     with_history b (messages b) (requests b + length times)%nat).
Proof.
  intros Hq. revert b; induction times as [|time times IH]; intros b.
  - cbn [for_each length]. unfold ret, with_history.
    rewrite Nat.add_0_r. now destruct b.
  - cbn [for_each length].
    destruct (Hq (requests b) (model cfg)
                 (messages b ++ [user_turn (SCHEDULER_PREFIX ++ time)]))
      as (reply & Hr & Hocc).
    assert (Hcall :
             send_message_to_chatgpt create (requests b) (messages b)
                                     (SCHEDULER_PREFIX ++ time) (model cfg)
             = (messages b ++ [user_turn (SCHEDULER_PREFIX ++ time);
                               system_turn reply],
                Returned reply, S (requests b))).
    { unfold send_message_to_chatgpt, call_openai_chat_api.
      fold (user_turn (SCHEDULER_PREFIX ++ time)).
      cbn [retry]. rewrite Hr. now rewrite <- app_assoc. }
    apply contains_lower in Hocc.
    rewrite (bind_returned _ _ b _ tt
               (quiet_tick create cfg time b _ _ _ Hcall Hocc)).
    rewrite IH. unfold with_history. cbn. f_equal. f_equal. lia.
Qed.

Lemma quiet_ticks_leave_no_trace_example :
  for_each [three_o_clock; lit "11/03/2026 06:00:00"]
           (tick (always (lit "Nothing to do now.")) plan_cfg) new_bot
  = (Returned tt,
     with_history new_bot (messages new_bot) (requests new_bot + 2)%nat).
Proof.
  apply (quiet_ticks_leave_no_trace
           (always (lit "Nothing to do now.")) plan_cfg
           [three_o_clock; lit "11/03/2026 06:00:00"] new_bot).
  intros n model history. exists (lit "Nothing to do now.").
  split; [reflexivity|].
  exists [], (lit "Nothing to do now"), (lit "."). split; reflexivity.
Defined.

(** X13: when the completion call of the command [g] fails on its three
    attempts, the command raises, nothing is sent to the channel nor to the
    recipient, and the user's message stays in the shared history without
    reply. *)
Theorem failed_command_keeps_the_message (create : Endpoint) (cfg : Config)
        (message : str) (b : Bot) :
  (forall j, (j < 3)%nat ->
             create (requests b + j)%nat (model cfg)
                    (messages b ++ [user_turn message]) = None) ->
  g create cfg message b
  = (Raised,
     with_history b (messages b ++ [user_turn message])
                  (requests b + 3)%nat).
Proof.
  intros H. unfold g. apply bind_raised. now apply chat_raised.
Qed.

Lemma failed_command_keeps_the_message_example :
  g never plan_cfg (lit "hi") new_bot
  = (Raised,
     with_history new_bot (messages new_bot ++ [user_turn (lit "hi")])
                  (requests new_bot + 3)%nat).
Proof.
  apply (failed_command_keeps_the_message never plan_cfg (lit "hi")
                                          new_bot).
  intros j _. reflexivity.
Defined.

(** X14: a command [g] answered with [reply], followed by a tick whose
    reply holds the phrase "nothing to do now" in some letter case: the
    channel gets [reply], the recipient gets nothing, and the history is
    the one before plus the command's two entries; the retraction removes
    the tick's entries and not the command's. *)
Theorem command_survives_quiet_tick (create : Endpoint) (cfg : Config)
        (message time : str) (b : Bot) (m1 m2 : list Message)
        (reply quiet : str) (n1 n2 : nat) :
  send_message_to_chatgpt create (requests b) (messages b) message
                          (model cfg)
  = (m1, Returned reply, n1) ->
  send_message_to_chatgpt create n1 m1 (SCHEDULER_PREFIX ++ time)
                          (model cfg)
  = (m2, Returned quiet, n2) ->
  occurs_any_case NOTHING_TO_DO quiet ->
  bind (g create cfg message) (fun _ => tick create cfg time) b
  = (Returned tt,
     {| messages := messages b ++ [user_turn message; system_turn reply];
        initialized := initialized b; requests := n2;
        outbox := outbox b; replies := replies b ++ [reply] |}).
Proof.
  intros H1 H2 Hq.
  pose proof (send_returned create _ _ _ _ _ _ _ H1) as E1.
  fold (user_turn message) in E1. fold (system_turn reply) in E1.
  apply contains_lower in Hq.
  erewrite bind_returned.
  2:{ unfold g. erewrite bind_returned
        by (eapply chat_returned; exact H1).
      reflexivity. }
  erewrite quiet_tick.
  - reflexivity.
  - cbn [requests messages with_history]. rewrite <- E1. exact H2.
  - exact Hq.
Qed.

Lemma command_survives_quiet_tick_example :
  bind (g (from_request 0 (lit "Nothing To Do Now")) plan_cfg (lit "hi"))
       (fun _ => tick (from_request 0 (lit "Nothing To Do Now")) plan_cfg
                      three_o_clock)
       new_bot
  = (Returned tt,
     {| messages := messages new_bot
                    ++ [user_turn (lit "hi");
                        system_turn (lit "Nothing To Do Now")];
        initialized := initialized new_bot; requests := 2;
        outbox := outbox new_bot;
        replies := replies new_bot ++ [lit "Nothing To Do Now"] |}).
Proof.
  apply (command_survives_quiet_tick
           (from_request 0 (lit "Nothing To Do Now")) plan_cfg (lit "hi")
           three_o_clock new_bot
           [user_turn (lit "hi"); system_turn (lit "Nothing To Do Now")]
           [user_turn (lit "hi"); system_turn (lit "Nothing To Do Now");
            user_turn (SCHEDULER_PREFIX ++ three_o_clock);
            system_turn (lit "Nothing To Do Now")]
           (lit "Nothing To Do Now") (lit "Nothing To Do Now") 1 2).
  - reflexivity.
  - reflexivity.
  - exists [], (lit "Nothing To Do Now"), []. split; reflexivity.
Defined.

(** X15: [_retract_last_n_message n] keeps, for a positive [n], all but
    the last [n] entries (none when there are fewer than [n]); for [n = 0]
    it empties the history instead of leaving it; for a negative [n] it
    keeps the first [-n] entries.  Nothing else of the bot changes, and
    what is kept is a prefix of the old history. *)
Theorem retract_keeps_a_prefix (n : Z) (b : Bot) :
  let b' := snd (_retract_last_n_message n b) in
  ((0 < n)%Z ->
   messages b'
   = firstn (length (messages b) - Z.to_nat n) (messages b))
  /\ (n = 0%Z -> messages b' = [])
  /\ ((n < 0)%Z -> messages b' = firstn (Z.to_nat (- n)) (messages b))
  /\ (exists dropped, messages b = messages b' ++ dropped)
  /\ b' = with_history b (messages b') (requests b).
Proof.
  cbv zeta. cbn [_retract_last_n_message snd messages].
  unfold slice_to. split; [|split; [|split; [|split]]].
  - intros H. destruct (- n <? 0)%Z eqn:E; [|apply Z.ltb_ge in E; lia].
    f_equal. lia.
  - intros ->. cbn [Z.opp Z.ltb Z.compare]. rewrite Z.min_l by lia.
    reflexivity.
  - intros H. destruct (- n <? 0)%Z eqn:E; [apply Z.ltb_lt in E; lia|].
    destruct (Z.min_spec (- n) (Z.of_nat (length (messages b))))
      as [[Hlt ->]|[Hge ->]]; [reflexivity|].
    rewrite Nat2Z.id, firstn_all. symmetry. apply firstn_all2. lia.
  - eexists. symmetry. apply firstn_skipn.
  - reflexivity.
Qed.

(** ** The scheduler, beyond the claims *)



